(** * pegasus: the OpenArt image downloader

    A shallow embedding of [tools/openart_download_images.py]:
    the image-URL predicate [looks_like_image], the JSON walk and the
    order-preserving deduplication of [extract_image_urls], the naming of
    output files in [build_output_path] and the batch loop of [main].

    A Python [str] is modelled by [string], read as the bytes of its UTF-8
    encoding.  [str.lower] is modelled on the ASCII letters.  Python also
    lower-cases letters outside ASCII; the only ASCII characters this can
    produce are "i" (from U+0130) and "k" (from U+212A), and neither occurs
    in the literals the predicate tests ("http", "?", ".png", ".jpg",
    ".jpeg", ".webp"), so the value of the predicate is the same. *)

From Stdlib Require Import Ascii String ZArith Bool.
From Stdlib Require Strings.Byte.
From stdpp Require Import base decidable option list sorting gmap strings pretty.

Local Set Warnings "-register-all,-clear-no-such-hyp".
Local Open Scope Z_scope.
Local Open Scope stdpp_scope.

(** ** Python string methods *)

Module Str.

(** [c.lower()] for one character: 'A'..'Z' go to 'a'..'z'. *)
Definition lower_char (c : ascii) : ascii :=
  let n := N_of_ascii c in
  if ((65 <=? n) && (n <=? 90))%N then ascii_of_N (n + 32) else c.

(** [s.lower()] *)
Fixpoint lower (s : string) : string :=
  match s with
  | EmptyString => EmptyString
  | String c rest => String (lower_char c) (lower rest)
  end.

(** [s.startswith(prefix)] *)
Fixpoint startswith (s prefix : string) {struct prefix} : bool :=
  match prefix with
  | EmptyString => true
  | String p prefix' =>
      match s with
      | EmptyString => false
      | String c s' => if Ascii.eqb c p then startswith s' prefix' else false
      end
  end.

(** [s[n:]] for [0 <= n] *)
Fixpoint drop (n : nat) (s : string) : string :=
  match n with
  | O => s
  | S n' => match s with
            | EmptyString => EmptyString
            | String _ s' => drop n' s'
            end
  end.

(** [s.endswith(suffix)]: the last [len(suffix)] characters of [s] are
    [suffix]. *)
Definition endswith (s suffix : string) : bool :=
  if (String.length suffix <=? String.length s)%nat
  then String.eqb (drop (String.length s - String.length suffix) s) suffix
  else false.

(** [s.split(sep, 1)] for a one-character separator: the list [[s]] when
    [sep] does not occur in [s], and otherwise the two-element list of the
    text before the first occurrence and the text after it. *)
Fixpoint split1 (sep : ascii) (s : string) : list string :=
  match s with
  | EmptyString => [EmptyString]
  | String c rest =>
      if Ascii.eqb c sep then [EmptyString; rest]
      else match split1 sep rest with
           | [] => []
           | before :: after => String c before :: after
           end
  end.

(** [sub in s] for a one-character [sub] *)
Fixpoint contains_char (c : ascii) (s : string) : bool :=
  match s with
  | EmptyString => false
  | String d rest => Ascii.eqb d c || contains_char c rest
  end.

(** [sub in s] *)
Fixpoint contains (s sub : string) : bool :=
  startswith s sub ||
  match s with
  | EmptyString => false
  | String _ rest => contains rest sub
  end.

End Str.

(** ** The image-URL predicate *)

(** The tuple of extensions tested by [looks_like_image]. *)
Definition image_extensions : list string := [".png"; ".jpg"; ".jpeg"; ".webp"].

(** [lowered.split("?", 1)[0]]: Python raises [IndexError] on an empty list;
    [Str.split1] never returns one (lemma [split1_item0] below), and the
    unreachable case is mapped to the empty string. *)
Definition item0 (parts : list string) : string :=
  match parts with
  | part :: _ => part
  | [] => EmptyString
  end.

Definition looks_like_image (url : string) : bool :=
  let lowered := Str.lower url in
  Str.startswith lowered "http" &&
  existsb (fun ext => Str.endswith (item0 (Str.split1 "?" lowered)) ext)
          image_extensions.

(** ** JSON values, as [json.loads] builds them *)

(** A Python [int] or [float]; a float is carried as its IEEE-754 binary64
    bit pattern.  The walk never inspects a number. *)
Inductive number : Type :=
| PyInt (n : Z)
| PyFloat (bits : Z).

(** [dict] preserves insertion order and is modelled by the list of its
    items in that order; [list] by a list. *)
Inductive json : Type :=
| JString (s : string)
| JNumber (x : number)
| JBool (b : bool)
| JNull
| JObject (members : list (string * json))
| JArray (items : list json).

(** Structural induction that reaches the values stored in containers. *)
Fixpoint json_tree_ind (P : json → Prop)
    (Hstr : ∀ s, P (JString s))
    (Hnum : ∀ x, P (JNumber x))
    (Hbool : ∀ b, P (JBool b))
    (Hnull : P JNull)
    (Hobj : ∀ members, Forall (λ kv, P kv.2) members → P (JObject members))
    (Harr : ∀ items, Forall P items → P (JArray items))
    (v : json) {struct v} : P v :=
  let rec := json_tree_ind P Hstr Hnum Hbool Hnull Hobj Harr in
  match v with
  | JString s => Hstr s
  | JNumber x => Hnum x
  | JBool b => Hbool b
  | JNull => Hnull
  | JObject members =>
      Hobj members
        ((fix go (ms : list (string * json)) : Forall (λ kv, P kv.2) ms :=
            match ms with
            | [] => Forall_nil_2 _
            | (key, nested) :: ms' =>
                Forall_cons_2 (λ kv, P kv.2) (key, nested) ms' (rec nested) (go ms')
            end) members)
  | JArray items =>
      Harr items
        ((fix go (vs : list json) : Forall P vs :=
            match vs with
            | [] => Forall_nil_2 _
            | item :: vs' => Forall_cons_2 P item vs' (rec item) (go vs')
            end) items)
  end.

(** [value.get(key)]: [None] stands for Python's [None] default.  A dict
    holds each key once, so the first item with the key is the only one. *)
Fixpoint dict_get (key : string) (members : list (string * json)) : option json :=
  match members with
  | [] => None
  | (k, nested) :: members' =>
      if decide (k = key) then Some nested else dict_get key members'
  end.

(** ** extract_image_urls *)

(** The closure [walk] appends to the list [urls] of the enclosing call; the
    list is threaded through as an argument and returned. *)
Fixpoint walk (value : json) (urls : list string) : list string :=
  match value with
  | JString s =>
      if looks_like_image s then urls ++ [s] else urls
  | JObject members =>
      let urls :=
        match dict_get "url" members with
        | Some (JString url_value) =>
            if looks_like_image url_value then urls ++ [url_value] else urls
        | _ => urls
        end in
      (fix for_values (ms : list (string * json)) (urls : list string) :=
         match ms with
         | [] => urls
         | (_, nested) :: ms' => for_values ms' (walk nested urls)
         end) members urls
  | JArray items =>
      (fix for_items (vs : list json) (urls : list string) :=
         match vs with
         | [] => urls
         | item :: vs' => for_items vs' (walk item urls)
         end) items urls
  | JNumber _ | JBool _ | JNull => urls
  end.

(** The second loop: [seen] is a set, [deduped] grows by [append]. *)
Fixpoint dedup_loop (urls : list string) (seen : gset string)
    (deduped : list string) : list string :=
  match urls with
  | [] => deduped
  | url :: urls' =>
      if decide (url ∈ seen) then dedup_loop urls' seen deduped
      else dedup_loop urls' ({[url]} ∪ seen) (deduped ++ [url])
  end.

Definition extract_image_urls (payload : json) : list string :=
  let urls := walk payload [] in
  dedup_loop urls ∅ [].

(** *** The walk with the interpreter's call depth made explicit

    Each call of [walk] takes one frame; [frames] is the number of frames
    still available, and [None] is Python's [RecursionError]. *)
Fixpoint walk_frames (frames : nat) (value : json) (urls : list string)
    : option (list string) :=
  match frames with
  | O => None
  | S frames' =>
      match value with
      | JString s =>
          Some (if looks_like_image s then urls ++ [s] else urls)
      | JObject members =>
          let urls :=
            match dict_get "url" members with
            | Some (JString url_value) =>
                if looks_like_image url_value then urls ++ [url_value] else urls
            | _ => urls
            end in
          foldl (λ acc kv, acc ≫= walk_frames frames' kv.2) (Some urls) members
      | JArray items =>
          foldl (λ acc item, acc ≫= walk_frames frames' item) (Some urls) items
      | JNumber _ | JBool _ | JNull => Some urls
      end
  end.




(** *** Notions used to state the properties *)

(** [s] begins with [p]; [s] ends with [x]. *)
Definition begins_with (p s : string) : Prop := ∃ t, s = p +:+ t.
Definition ends_with (x s : string) : Prop := ∃ t, s = t +:+ x.

(** [part] is the text of [s] before the first [sep], or all of [s] when
    [sep] does not occur in it. *)
Definition before_first (sep : ascii) (s part : string) : Prop :=
  Str.contains_char sep part = false ∧
  (part = s ∨ ∃ rest, s = part +:+ String sep rest).

(** [occurs_in u v]: [u] is [v] itself, a value of the object [v], an item
    of the array [v], or occurs in one of those.  Keys are not values. *)
Inductive occurs_in (u : json) : json → Prop :=
| occurs_here : occurs_in u u
| occurs_value members key nested :
    (key, nested) ∈ members → occurs_in u nested → occurs_in u (JObject members)
| occurs_item items item :
    item ∈ items → occurs_in u item → occurs_in u (JArray items).

(** [s] is a string node of [v]. *)
Definition string_node (s : string) (v : json) : Prop := occurs_in (JString s) v.

(** [s] is a key of some object inside [v]. *)
Definition key_in (s : string) (v : json) : Prop :=
  ∃ members nested, occurs_in (JObject members) v ∧ (s, nested) ∈ members.

(** The candidates of a value, in the order of the depth-first walk: a
    string that matches; for an object its matching "url" field first and
    then the candidates of its values in key order; for an array the
    candidates of its items in order. *)
Fixpoint candidates (v : json) : list string :=
  match v with
  | JString s => if looks_like_image s then [s] else []
  | JObject members =>
      match dict_get "url" members with
      | Some (JString url_value) =>
          if looks_like_image url_value then [url_value] else []
      | _ => []
      end ++
      (fix of_values (ms : list (string * json)) : list string :=
         match ms with
         | [] => []
         | (_, nested) :: ms' => candidates nested ++ of_values ms'
         end) members
  | JArray items =>
      (fix of_items (vs : list json) : list string :=
         match vs with
         | [] => []
         | item :: vs' => candidates item ++ of_items vs'
         end) items
  | JNumber _ | JBool _ | JNull => []
  end.

(** The candidate recorded by the object-level check on the "url" field. *)
Definition url_field (members : list (string * json)) : list string :=
  match dict_get "url" members with
  | Some (JString url_value) => if looks_like_image url_value then [url_value] else []
  | _ => []
  end.

(** [l.count(x)] *)
Definition occurrences (x : string) (l : list string) : nat :=
  length (filter (λ y, y = x) l).

(** Order-preserving deduplication as the specification words it: the first
    occurrence of each string is kept, every later copy is dropped. *)
Fixpoint keep_first (l : list string) : list string :=
  match l with
  | [] => []
  | x :: l' => x :: filter (λ y, y ≠ x) (keep_first l')
  end.

(** Position of the first occurrence of [x] in [l] ([length l] if none). *)
Fixpoint first_index (x : string) (l : list string) : nat :=
  match l with
  | [] => O
  | y :: l' => if decide (y = x) then O else S (first_index x l')
  end.

(** ** The platform: exceptions, files, the network *)

(** An exception of class [Exception] (what [except Exception] catches),
    with the text that [str(exc)] gives.  [KeyboardInterrupt] and
    [SystemExit] are not of this class and are not modelled. *)
Inductive exn : Type := Exception (text : string).

Definition exn_text (e : exn) : string := let 'Exception text := e in text.

Inductive result (A : Type) : Type :=
| Ok (a : A)
| Raise (e : exn).
Arguments Ok {A} a.
Arguments Raise {A} e.

(** An entry of the file system. *)
Inductive node : Type :=
| Dir
| File (data : list Byte.byte).

(** What [requests.get(..., stream=True)] answers once the connection is
    made: the outcome of [raise_for_status()], the chunks that
    [iter_content] yields, and the exception that ends the stream early, if
    any. *)
Record response : Type := {
  raise_for_status : result unit;
  iter_content : list (list Byte.byte);
  stream_error : option exn
}.

(** The library calls of the module.  [requests_get n] is the [n]-th request
    of the run, so the same URL may be answered differently over time. *)
Class Platform : Type := {
  Path : Type;
  Path_eq_dec :: EqDecision Path;
  (** [p / name] *)
  joinpath : Path → string → Path;
  (** [p.stem] *)
  path_stem : Path → string;
  (** [p.parent] *)
  path_parent : Path → Path;
  (** [str(p)], as the f-strings print it *)
  path_str : Path → string;
  (** [Path(s).name] *)
  path_name : string → string;
  (** [urlsplit(url).path]; [urlsplit] raises [ValueError] *)
  urlsplit_path : string → result string;
  (** [json.loads] of the UTF-8 decoding of a file's bytes *)
  json_loads : list Byte.byte → result json;
  (** [p.mkdir(parents=True, exist_ok=True)] *)
  mkdir_parents : (Path → option node) → Path → result (Path → option node);
  (** [requests.get(url, headers=..., timeout=..., stream=True)] *)
  requests_get : nat → string → list (string * string) → Z → result response
}.

Section Program.
Context `{Platform}.

Definition files : Type := Path → option node.

(** The state the program runs in: the file system, the number of
    requests sent so far, and the lines printed so far. *)
Record state : Type := {
  fs : files;
  sent : nat;
  stdout : list string
}.

(** Computations that read and change the state and may raise. *)
Definition M (A : Type) : Type := state → result A * state.

Definition ret {A} (a : A) : M A := λ st, (Ok a, st).

Definition bind {A B} (m : M A) (k : A → M B) : M B :=
  λ st, match m st with
        | (Ok a, st') => k a st'
        | (Raise e, st') => (Raise e, st')
        end.

Definition lift {A} (r : result A) : M A := λ st, (r, st).

(** [try: m / except Exception as exc: ...]: the outcome of [m] as a
    value; the state changes made before a raise remain. *)
Definition attempt {A} (m : M A) : M (result A) :=
  λ st, let '(r, st') := m st in (Ok r, st').

Definition print (line : string) : M unit :=
  λ st, (Ok tt, {| fs := fs st; sent := sent st; stdout := stdout st ++ [line] |}).

Definition get_fs : M files := λ st, (Ok (fs st), st).

Definition put_fs (f : files) : M unit :=
  λ st, (Ok tt, {| fs := f; sent := sent st; stdout := stdout st |}).

(** [quiet m]: [m] prints nothing. *)
Definition quiet {A} (m : M A) : Prop :=
  ∀ st r st', m st = (r, st') → stdout st' = stdout st.

(** [destination.exists()] *)
Definition path_exists (f : files) (p : Path) : bool :=
  match f p with Some _ => true | None => false end.

Definition write_entry (f : files) (p : Path) (n : node) : files :=
  λ q, if decide (q = p) then Some n else f q.

(** [for x in xs: body(x)]; a raise in the body leaves the loop. *)
Fixpoint for_each {A} (xs : list A) (body : A → M unit) : M unit :=
  match xs with
  | [] => ret tt
  | x :: xs' => bind (body x) (λ _, for_each xs' body)
  end.

(** [enumerate(xs, start)] *)
Fixpoint enumerate {A} (start : Z) (xs : list A) : list (Z * A) :=
  match xs with
  | [] => []
  | x :: xs' => (start, x) :: enumerate (start + 1) xs'
  end.

(** [xs[:n]] *)
Definition slice_to {A} (n : Z) (xs : list A) : list A :=
  if (0 <=? n)%Z then take (Z.to_nat n) xs
  else take (length xs - Z.to_nat (- n)) xs.

(** *** build_output_path *)

Definition build_output_path (output_dir metadata_file : Path) (url : string)
    (index : Z) : M Path :=
  bind (lift (urlsplit_path url)) (λ url_path,
  let name := path_name url_path in
  let name :=
    if decide (name = "")
    then path_stem metadata_file +:+ "_" +:+ pretty index +:+ ".png"
    else name in
  let destination := joinpath output_dir name in
  bind get_fs (λ f,
  if path_exists f destination
  then ret (joinpath output_dir
              (path_stem metadata_file +:+ "_" +:+ pretty index +:+ "_" +:+ name))
  else ret destination)).

(** *** download_image *)

(** [destination.open("wb")]: the file is created or truncated. *)
Definition open_wb (destination : Path) : M unit :=
  bind get_fs (λ f,
  match f destination with
  | Some Dir => lift (Raise (Exception "IsADirectoryError"))
  | _ => put_fs (write_entry f destination (File []))
  end).

(** [handle.write(chunk)] *)
Definition handle_write (destination : Path) (chunk : list Byte.byte) : M unit :=
  bind get_fs (λ f,
  match f destination with
  | Some (File data) => put_fs (write_entry f destination (File (data ++ chunk)))
  | _ => put_fs (write_entry f destination (File chunk))
  end).

Definition download_image (url : string) (destination : Path)
    (headers : list (string * string)) (timeout : Z) : M unit :=
  bind get_fs (λ f,
  bind (lift (mkdir_parents f (path_parent destination))) (λ f',
  bind (put_fs f') (λ _,
  bind (λ st, (requests_get (sent st) url headers timeout,
               {| fs := fs st; sent := S (sent st); stdout := stdout st |}))
       (λ response,
  bind (lift (raise_for_status response)) (λ _,
  bind (open_wb destination) (λ _,
  bind (for_each (iter_content response)
          (λ chunk, match chunk with
                    | [] => ret tt
                    | _ => handle_write destination chunk
                    end)) (λ _,
  match stream_error response with
  | Some e => lift (Raise e)
  | None => ret tt
  end))))))).

(** *** The loop of main *)

Record arguments : Type := {
  output_dir : Path;
  timeout : Z;
  max_per_file : option Z
}.

(** [metadata_path.read_text(encoding="utf-8")] followed by [json.loads] *)
Definition read_metadata (metadata_path : Path) : M json :=
  bind get_fs (λ f,
  match f metadata_path with
  | None => lift (Raise (Exception "FileNotFoundError"))
  | Some Dir => lift (Raise (Exception "IsADirectoryError"))
  | Some (File data) => lift (json_loads data)
  end).

(** The body of the inner loop, for one [(index, url)]. *)
Definition url_body (args : arguments) (headers : list (string * string))
    (metadata_path : Path) (item : Z * string) : M unit :=
  let '(index, url) := item in
  bind (build_output_path (output_dir args) metadata_path url index) (λ destination,
  bind (attempt (download_image url destination headers (timeout args))) (λ r,
  match r with
  | Raise exc =>
      print ("Failed to download " +:+ url +:+ " from " +:+ path_str metadata_path
             +:+ ": " +:+ exn_text exc)
  | Ok _ =>
      print ("Saved " +:+ url +:+ " -> " +:+ path_str destination)
  end)).

(** The body of the outer loop, for one metadata file. *)
Definition file_body (args : arguments) (headers : list (string * string))
    (metadata_path : Path) : M unit :=
  bind (attempt (read_metadata metadata_path)) (λ r,
  match r with
  | Raise exc =>
      print ("Failed to read metadata " +:+ path_str metadata_path +:+ ": "
             +:+ exn_text exc)
  | Ok payload =>
      let urls := extract_image_urls payload in
      match urls with
      | [] => print ("No image URLs found in " +:+ path_str metadata_path)
      | _ =>
          let urls :=
            match max_per_file args with
            | Some n => slice_to n urls
            | None => urls
            end in
          for_each (enumerate 1 urls) (url_body args headers metadata_path)
      end
  end).

(** Lines 132-155 of [main]: the loop over the resolved metadata files. *)
Definition main_loop (args : arguments) (headers : list (string * string))
    (metadata_files : list Path) : M unit :=
  for_each metadata_files (file_body args headers).

End Program.

(** ** resolve_files and main *)

Section Main.
Context `{Platform}.

(** [Path(pattern)], and what [Path().glob(pattern)] yields on a given
    disk; [glob] raises on a pattern it does not accept. *)
Variable path_of : string → Path.
Variable glob : files → string → result (list Path).

(** [any(char in pattern for char in "*?[]")] *)
Definition has_wildcard (pattern : string) : bool :=
  existsb (λ char, Str.contains_char char pattern) ["*"; "?"; "["; "]"]%char.

(** What one pattern contributes to the list. *)
Definition pattern_files (f : files) (pattern : string) : result (list Path) :=
  if has_wildcard pattern then glob f pattern else Ok [path_of pattern].

(** The loop of [resolve_files]: [files.extend] for a pattern with a
    wildcard character, [files.append] for any other. *)
Fixpoint collect_files (f : files) (patterns : list string) (found : list Path)
    : result (list Path) :=
  match patterns with
  | [] => Ok found
  | pattern :: patterns' =>
      if has_wildcard pattern then
        match glob f pattern with
        | Ok matched => collect_files f patterns' (found ++ matched)
        | Raise e => Raise e
        end
      else collect_files f patterns' (found ++ [path_of pattern])
  end.

Definition resolve_files (patterns : list string) : M (list Path) :=
  bind get_fs (λ f,
  bind (lift (collect_files f patterns [])) (λ found,
  match found with
  | [] =>
      lift (Raise (Exception "No metadata files matched the provided patterns."))
  | _ => ret found
  end)).

(** The parsed command line: [args.metadata], [args.use_api_key] and the
    three options the loop reads. *)
Record command_line : Type := {
  metadata : list string;
  use_api_key : bool;
  options : arguments
}.

(** How [main] ends: it returns, it raises [SystemExit], or an exception
    leaves it. *)
Inductive ending : Type :=
| Returns
| SystemExit (message : string)
| Uncaught (e : exn).

(** Lines 124-129: the headers; [api_key] is
    [os.environ.get("OPENART_API_KEY")]. *)
Definition request_headers (use_key : bool) (api_key : option string)
    : string + list (string * string) :=
  if use_key then
    match api_key with
    | None | Some EmptyString =>
        inl "OPENART_API_KEY is required when --use-api-key is set."
    | Some key => inr [("Authorization", "Bearer " +:+ key)]
    end
  else inr [].

Definition main (cl : command_line) (api_key : option string)
    : state → ending * state :=
  λ st,
  match request_headers (use_api_key cl) api_key with
  | inl message => (SystemExit message, st)
  | inr headers =>
      match bind (resolve_files (metadata cl))
                 (main_loop (options cl) headers) st with
      | (Ok _, st') => (Returns, st')
      | (Raise e, st') => (Uncaught e, st')
      end
  end.

End Main.

(** ** A scripted platform for the examples

    Paths are POSIX path texts.  [urlsplit] and [pathlib] follow the
    documented behaviour of the standard library on the inputs used below
    (the removal of control characters by [urlsplit] is left out);
    [json.loads] and [requests.get] answer from tables. *)

Module Urllib.

Definition is_alpha (c : ascii) : bool :=
  let n := N_of_ascii c in
  (((97 <=? n) && (n <=? 122)) || ((65 <=? n) && (n <=? 90)))%N.

Definition is_digit (c : ascii) : bool :=
  let n := N_of_ascii c in ((48 <=? n) && (n <=? 57))%N.

(** [scheme_chars]: letters, digits and "+-." *)
Definition scheme_char (c : ascii) : bool :=
  is_alpha c || is_digit c || Str.contains_char c "+-.".

Fixpoint all_chars (p : ascii → bool) (s : string) : bool :=
  match s with
  | EmptyString => true
  | String c rest => p c && all_chars p rest
  end.

(** The text after "scheme:" when the URL starts with a scheme. *)
Definition strip_scheme (url : string) : string :=
  match Str.split1 ":" url with
  | [String c scheme; rest] =>
      if is_alpha c && all_chars scheme_char scheme then rest else url
  | _ => url
  end.

(** [_splitnetloc(url, 2)]: the text up to the first of "/?#", and the
    rest from that character on. *)
Fixpoint splitnetloc (s : string) : string * string :=
  match s with
  | EmptyString => (EmptyString, EmptyString)
  | String c rest =>
      if Str.contains_char c "/?#" then (EmptyString, s)
      else let '(netloc, url) := splitnetloc rest in (String c netloc, url)
  end.

Definition urlsplit_path (url : string) : result string :=
  let url := strip_scheme url in
  let '(netloc, url) :=
    if Str.startswith url "//" then splitnetloc (Str.drop 2 url)
    else (EmptyString, url) in
  if (Str.contains_char "[" netloc && negb (Str.contains_char "]" netloc))
     || (Str.contains_char "]" netloc && negb (Str.contains_char "[" netloc))
  then Raise (Exception "Invalid IPv6 URL")
  else Ok (item0 (Str.split1 "?" (item0 (Str.split1 "#" url)))).

End Urllib.

Module Posix.

(** [s.split(sep)] for a one-character separator *)
Fixpoint split_all (sep : ascii) (s : string) : list string :=
  match s with
  | EmptyString => [EmptyString]
  | String c rest =>
      if Ascii.eqb c sep then EmptyString :: split_all sep rest
      else match split_all sep rest with
           | [] => [String c EmptyString]
           | part :: parts => String c part :: parts
           end
  end.

(** The components of a path text; empty ones and "." are dropped. *)
Definition components (s : string) : list string :=
  filter (λ part, part ≠ EmptyString ∧ part ≠ ".") (split_all "/" s).

Definition name (s : string) : string := List.last (components s) EmptyString.

(** [s.rfind(c)] *)
Fixpoint rfind (c : ascii) (s : string) : option nat :=
  match s with
  | EmptyString => None
  | String d rest =>
      match rfind c rest with
      | Some i => Some (S i)
      | None => if Ascii.eqb d c then Some O else None
      end
  end.

Definition stem (s : string) : string :=
  let n := name s in
  match rfind "." n with
  | Some (S i) =>
      if (S i <? String.length n - 1)%nat then String.substring 0 (S i) n else n
  | _ => n
  end.

Definition join (dir : string) (n : string) : string := dir +:+ "/" +:+ n.

Fixpoint join_all (parts : list string) : string :=
  match parts with
  | [] => EmptyString
  | [part] => part
  | part :: parts' => part +:+ "/" +:+ join_all parts'
  end.

Definition parent (s : string) : string :=
  let above := join_all (removelast (components s)) in
  if Str.startswith s "/" then "/" +:+ above
  else if decide (above = EmptyString) then "." else above.

End Posix.

#[local] Instance byte_eq_dec : EqDecision Byte.byte := Strings.Byte.byte_eq_dec.

Definition scripted (documents : list (list Byte.byte * json))
    (answers : list (string * response)) : Platform := {|
  Path := string;
  joinpath := Posix.join;
  path_stem := Posix.stem;
  path_parent := Posix.parent;
  path_str := λ p, p;
  path_name := Posix.name;
  urlsplit_path := Urllib.urlsplit_path;
  json_loads := λ data,
    match list_find (λ d, d.1 = data) documents with
    | Some (_, (_, v)) => Ok v
    | None => Raise (Exception "JSONDecodeError")
    end;
  mkdir_parents := λ f p,
    match f p with
    | Some (File _) => Raise (Exception "FileExistsError")
    | _ => Ok (λ q, if decide (q = p) then Some Dir else f q)
    end;
  requests_get := λ _ url _ _,
    match list_find (λ a, a.1 = url) answers with
    | Some (_, (_, r)) => Ok r
    | None => Raise (Exception "ConnectionError")
    end
|}.

(** The text of a JSON array of strings. *)
Definition json_text_of_strings (l : list string) : list Byte.byte :=
  let quote := Byte.x22 in
  let item s := quote :: String.list_byte_of_string s ++ [quote] in
  match l with
  | [] => [Byte.x5b; Byte.x5d]
  | s :: l' =>
      Byte.x5b :: item s ++ flat_map (λ t, Byte.x2c :: item t) l' ++ [Byte.x5d]
  end.

(** *** The files and answers of the examples *)

Module Scenario.

(** Two metadata files; the first holds a string that passes
    [looks_like_image] and that [urlsplit] rejects. *)
Definition bad_url : string := "http://[x/a.png".
Definition good_url : string := "http://x.com/b.png".

Definition documents : list (list Byte.byte * json) :=
  [(json_text_of_strings [bad_url], JArray [JString bad_url]);
   (json_text_of_strings [good_url], JArray [JString good_url])].

Definition image : list Byte.byte := [Byte.x89; Byte.x50; Byte.x4e; Byte.x47].

Definition answers : list (string * response) :=
  [(good_url,
    {| raise_for_status := Ok tt; iter_content := [image]; stream_error := None |})].

Definition platform : Platform := scripted documents answers.

Definition disk : @files platform :=
  λ p, if decide (p = "meta/a.json") then Some (File (json_text_of_strings [bad_url]))
       else if decide (p = "meta/b.json") then Some (File (json_text_of_strings [good_url]))
       else if decide (p = "meta") then Some Dir
       else None.

Definition start : @state platform := @Build_state platform disk 0 [].

Definition args : @arguments platform :=
  @Build_arguments platform "out" 60 None.

(** A disk on which both the primary destination of "a.png" and its
    alternative are taken. *)
Definition crowded : @files platform :=
  λ p, if decide (p = "out/a.png") then Some (File [Byte.x01])
       else if decide (p = "out/run_1_a.png") then Some (File [Byte.x02])
       else if decide (p = "out") then Some Dir
       else None.

Definition crowded_start : @state platform := @Build_state platform crowded 0 [].

End Scenario.

(** *** Further files and answers *)

Module Cases.

(** A stream that breaks after its chunks, and an error status. *)
Definition broken : response :=
  {| raise_for_status := Ok tt;
     iter_content := [[Byte.x01]; []; [Byte.x02]];
     stream_error := Some (Exception "ChunkedEncodingError") |}.

Definition refused : response :=
  {| raise_for_status := Raise (Exception "404 Client Error");
     iter_content := [];
     stream_error := None |}.

Definition platform : Platform :=
  scripted Scenario.documents
    [("http://x.com/a.png", broken); ("http://x.com/gone.png", refused)].

Definition crowded_start : @state platform :=
  @Build_state platform Scenario.crowded 0 [].

(** [Path(pattern)] is the pattern; the one pattern that [glob] knows. *)
Definition path_of (pattern : string) : @Path Scenario.platform := pattern.

Definition glob (f : @files Scenario.platform) (pattern : string)
    : result (list (@Path Scenario.platform)) :=
  if Str.startswith pattern "/"
  then Raise (Exception "Non-relative patterns are unsupported")
  else if decide (pattern = "meta/*.json")
  then Ok (filter (λ p, is_Some (f p)) ["meta/a.json"; "meta/b.json"])
  else Ok [].

Definition absolute_pattern : @command_line Scenario.platform :=
  @Build_command_line Scenario.platform ["meta/b.json"; "/srv/*.json"; "meta/a.json"]
    false Scenario.args.

Definition limited : @arguments Scenario.platform :=
  @Build_arguments Scenario.platform "out" 60 (Some 0).


End Cases.

(** * Properties *)

(** ** Strings *)

Lemma str_app_nil_l (s : string) : EmptyString +:+ s = s.
Proof. reflexivity. Qed.

Lemma str_app_cons (c : ascii) (s t : string) : String c s +:+ t = String c (s +:+ t).
Proof. reflexivity. Qed.

Lemma str_app_nil_r (s : string) : s +:+ EmptyString = s.
Proof. induction s as [|c s IH]; [done|]. by rewrite str_app_cons, IH. Qed.

Lemma str_app_assoc (s t u : string) : (s +:+ t) +:+ u = s +:+ (t +:+ u).
Proof. induction s as [|c s IH]; [done|]. by rewrite !str_app_cons, IH. Qed.

Lemma str_length_app (s t : string) :
  String.length (s +:+ t) = (String.length s + String.length t)%nat.
Proof. induction s as [|c s IH]; [done|]. rewrite str_app_cons. simpl. by rewrite IH. Qed.

Lemma startswith_spec (s p : string) :
  Str.startswith s p = true ↔ begins_with p s.
Proof.
  unfold begins_with. revert s. induction p as [|c p IH]; intros s; simpl.
  - split; [intros _; by exists s | done].
  - destruct s as [|d s].
    + split; [done | intros [t Ht]; by rewrite str_app_cons in Ht].
    + destruct (Ascii.eqb_spec d c) as [->|Hne].
      * rewrite IH. split; intros [t Ht]; exists t.
        -- by rewrite str_app_cons, Ht.
        -- rewrite str_app_cons in Ht. by injection Ht.
      * split; [done | intros [t Ht]]. rewrite str_app_cons in Ht. congruence.
Qed.

Lemma drop_app_length (t x : string) : Str.drop (String.length t) (t +:+ x) = x.
Proof. induction t as [|c t IH]; [done|]. by rewrite str_app_cons. Qed.

Lemma drop_split (n : nat) (s : string) : ∃ t, s = t +:+ Str.drop n s.
Proof.
  revert s. induction n as [|n IH]; intros s; simpl.
  - by exists EmptyString.
  - destruct s as [|c s]; [by exists EmptyString|].
    destruct (IH s) as [t Ht]. exists (String c t). by rewrite str_app_cons, <- Ht.
Qed.

Lemma endswith_spec (s x : string) :
  Str.endswith s x = true ↔ ends_with x s.
Proof.
  unfold Str.endswith, ends_with. split.
  - destruct (Nat.leb_spec (String.length x) (String.length s)) as [Hle|]; [|done].
    intros Heq%String.eqb_eq.
    destruct (drop_split (String.length s - String.length x) s) as [t Ht].
    exists t. rewrite <- Heq. exact Ht.
  - intros [t ->]. rewrite str_length_app.
    destruct (Nat.leb_spec (String.length x) (String.length t + String.length x))
      as [_|Hlt]; [|lia].
    replace (String.length t + String.length x - String.length x)%nat
      with (String.length t) by lia.
    rewrite drop_app_length. apply String.eqb_refl.
Qed.

(** [s.split(sep, 1)] has an item 0: indexing it cannot raise. *)
Lemma split1_item0 (sep : ascii) (s : string) :
  ∃ part rest, Str.split1 sep s = part :: rest.
Proof.
  induction s as [|c s (part & rest & IH)]; simpl; [by eauto|].
  destruct (Ascii.eqb c sep); [by eauto|]. rewrite IH. by eauto.
Qed.

Lemma split1_before_first (sep : ascii) (s : string) :
  before_first sep s (item0 (Str.split1 sep s)).
Proof.
  unfold before_first. induction s as [|c s [IH1 IH2]]; simpl; [by auto|].
  destruct (Ascii.eqb_spec c sep) as [->|Hne]; simpl.
  - split; [done|]. right. by exists s.
  - destruct (split1_item0 sep s) as (part & rest & Hs). rewrite Hs in *. simpl in *.
    split.
    + rewrite IH1. by apply orb_false_iff, conj; [apply Ascii.eqb_neq|].
    + destruct IH2 as [->|[r ->]]; [by left|]. right. exists r. by rewrite str_app_cons.
Qed.

Lemma before_first_unique (sep : ascii) (s p q : string) :
  before_first sep s p → before_first sep s q → p = q.
Proof.
  unfold before_first. revert p q.
  assert (Hno : ∀ p r, Str.contains_char sep (p +:+ String sep r) = true).
  { intros p r. induction p as [|c p IH]; simpl.
    - by rewrite Ascii.eqb_refl.
    - rewrite IH. apply orb_true_r. }
  induction s as [|c s IH]; intros p q [Hp Hp'] [Hq Hq'].
  - destruct Hp' as [->|[r Hr]], Hq' as [->|[r' Hr']]; try done.
    + destruct q; by rewrite ?str_app_cons in Hr'.
    + destruct p; by rewrite ?str_app_cons in Hr.
    + destruct p; by rewrite ?str_app_cons in Hr.
  - destruct Hp' as [->|[r Hr]], Hq' as [->|[r' Hr']]; try done.
    + rewrite Hr', Hno in Hp. done.
    + rewrite Hr, Hno in Hq. done.
    + destruct p as [|a p], q as [|b q]; rewrite ?str_app_nil_l, ?str_app_cons in *;
        simplify_eq; simpl in *.
      * done.
      * rewrite Ascii.eqb_refl in Hq. done.
      * rewrite Ascii.eqb_refl in Hp. done.
      * f_equal. apply orb_false_iff in Hp as [_ Hp], Hq as [_ Hq].
        apply IH; split; eauto.
Qed.

(** ** The predicate *)

Lemma extension_matches (part : string) :
  existsb (λ ext, Str.endswith part ext) image_extensions = true ↔
  ends_with ".png" part ∨ ends_with ".jpg" part ∨
  ends_with ".jpeg" part ∨ ends_with ".webp" part.
Proof.
  unfold image_extensions. simpl.
  rewrite !orb_true_iff, !endswith_spec. intuition discriminate.
Qed.

Lemma looks_like_image_iff (s : string) :
  looks_like_image s = true ↔
  begins_with "http" (Str.lower s) ∧
  ∃ part, before_first "?" (Str.lower s) part ∧
    (ends_with ".png" part ∨ ends_with ".jpg" part ∨
     ends_with ".jpeg" part ∨ ends_with ".webp" part).
Proof.
  unfold looks_like_image. cbv zeta.
  rewrite andb_true_iff, startswith_spec, extension_matches.
  split; intros [Hhttp Hext]; (split; [done|]).
  - exists (item0 (Str.split1 "?" (Str.lower s))).
    split; [apply split1_before_first | done].
  - destruct Hext as (part & Hpart & Hext).
    by rewrite (before_first_unique _ _ _ _ (split1_before_first "?" (Str.lower s)) Hpart).
Qed.

Lemma extract_string (s : string) :
  extract_image_urls (JString s) = if looks_like_image s then [s] else [].
Proof.
  unfold extract_image_urls. simpl. destruct (looks_like_image s); [|done].
  simpl. rewrite decide_False by set_solver. done.
Qed.

(** C2: [looks_like_image s] holds exactly when the lower-cased [s] begins
    with "http" and its part before the first "?" (all of it when there is
    none) ends with ".png", ".jpg", ".jpeg" or ".webp"; the two URLs with a
    query string or in upper case qualify, the ".php" URL and the sentence
    that merely contains a URL do not. *)
Theorem looks_like_image_spec :
  (∀ s : string,
     looks_like_image s = true ↔
     begins_with "http" (Str.lower s) ∧
     ∃ part, before_first "?" (Str.lower s) part ∧
       (ends_with ".png" part ∨ ends_with ".jpg" part ∨
        ends_with ".jpeg" part ∨ ends_with ".webp" part)) ∧
  looks_like_image "http://x.com/a.png?sig=abc" = true ∧
  looks_like_image "HTTPS://X.COM/A.PNG" = true ∧
  looks_like_image "http://x.com/a.php?img=.png" = false ∧
  looks_like_image "see http://x.com/a.png" = false.
Proof. split; [apply looks_like_image_iff | by repeat split]. Qed.

(** C6: "httpfoo.png" holds no "://" and is accepted and extracted all the
    same: a string whose lower-casing begins with "http" and whose part
    before the first "?" ends with an image extension qualifies, whether or
    not "://" follows the prefix. *)
Theorem httpfoo_is_accepted :
  Str.contains "httpfoo.png" "://" = false ∧
  looks_like_image "httpfoo.png" = true ∧
  extract_image_urls (JString "httpfoo.png") = ["httpfoo.png"] ∧
  (∃ s, Str.contains s "://" = false ∧ looks_like_image s = true ∧
        extract_image_urls (JString s) = [s]) ∧
  (∀ s part,
     begins_with "http" (Str.lower s) →
     before_first "?" (Str.lower s) part →
     ends_with ".png" part ∨ ends_with ".jpg" part ∨
     ends_with ".jpeg" part ∨ ends_with ".webp" part →
     looks_like_image s = true ∧ extract_image_urls (JString s) = [s]).
Proof.
  split_and!; try by vm_compute.
  - exists "httpfoo.png". by vm_compute.
  - intros s part Hhttp Hpart Hext.
    assert (looks_like_image s = true) as Hs by (apply looks_like_image_iff; eauto).
    by rewrite extract_string, Hs.
Qed.

(** ** The walk *)

Lemma dict_get_elem_of (key : string) (members : list (string * json)) (v : json) :
  dict_get key members = Some v → (key, v) ∈ members.
Proof.
  induction members as [|[k nested] ms IH]; simpl; [done|].
  case_decide as Hk; [intros [= ->]; subst; left | intros ?; right; auto].
Qed.

Lemma candidates_object (members : list (string * json)) :
  candidates (JObject members)
  = url_field members ++ members ≫= (λ kv, candidates kv.2).
Proof.
  simpl. unfold url_field. f_equal.
  induction members as [|[k nested] ms IH]; [done|]. by rewrite bind_cons, <- IH.
Qed.

Lemma candidates_array (items : list json) :
  candidates (JArray items) = items ≫= candidates.
Proof.
  simpl. induction items as [|item vs IH]; [done|]. by rewrite bind_cons, <- IH.
Qed.

(** The walk appends, to the list it is given, the candidates of the value
    in depth-first order. *)
Lemma walk_candidates (v : json) (urls : list string) :
  walk v urls = urls ++ candidates v.
Proof.
  revert urls. induction v as [s|x|b| |members IH|items IH] using json_tree_ind;
    intros urls; try (simpl; by rewrite ?app_nil_r).
  - simpl. destruct (looks_like_image s); by rewrite ?app_nil_r.
  - rewrite candidates_object. simpl.
    set (urls' := match dict_get "url" members with
                  | Some (JString u) => if looks_like_image u then urls ++ [u] else urls
                  | _ => urls end).
    assert (urls' = urls ++ url_field members) as ->.
    { unfold urls', url_field. destruct (dict_get "url" members) as [[u| | | | |]|];
        try by rewrite app_nil_r. destruct (looks_like_image u); by rewrite ?app_nil_r. }
    rewrite (assoc_L (++)). generalize (urls ++ url_field members). clear urls.
    induction IH as [|[k nested] ms Hv _ IHms]; intros acc.
    + by rewrite app_nil_r.
    + rewrite bind_cons, IHms. simpl in Hv. by rewrite Hv, <- (assoc_L (++)).
  - rewrite candidates_array. simpl. revert urls.
    induction IH as [|item vs Hv _ IHvs]; intros acc.
    + by rewrite app_nil_r.
    + by rewrite bind_cons, IHvs, Hv, <- (assoc_L (++)).
Qed.

Lemma candidates_sound (v : json) (s : string) :
  s ∈ candidates v → looks_like_image s = true ∧ string_node s v.
Proof.
  induction v as [t|x|b| |members IH|items IH] using json_tree_ind;
    try (simpl; by intros ?%elem_of_nil).
  - simpl. destruct (looks_like_image t) eqn:Ht; [|by intros ?%elem_of_nil].
    intros ->%list_elem_of_singleton. split; [done | constructor].
  - rewrite candidates_object. intros [Hurl|Hvalues]%elem_of_app.
    + unfold url_field in Hurl.
      destruct (dict_get "url" members) as [[u| | | | |]|] eqn:Hget;
        try by apply elem_of_nil in Hurl.
      destruct (looks_like_image u) eqn:Hu; [|by apply elem_of_nil in Hurl].
      apply list_elem_of_singleton in Hurl as ->. split; [done|].
      eapply occurs_value; [by apply dict_get_elem_of | constructor].
    + apply list_elem_of_bind in Hvalues as ([k nested] & Hs & Hin).
      rewrite Forall_forall in IH. destruct (IH _ Hin Hs) as [? ?].
      split; [done|]. by eapply occurs_value.
  - rewrite candidates_array. intros (item & Hs & Hin)%list_elem_of_bind.
    rewrite Forall_forall in IH. destruct (IH _ Hin Hs) as [? ?].
    split; [done|]. by eapply occurs_item.
Qed.

(** The candidates of a value inside [v] are candidates of [v]. *)
Lemma candidates_occurs_in (u v : json) (s : string) :
  occurs_in u v → s ∈ candidates u → s ∈ candidates v.
Proof.
  induction 1 as [|members key nested Hin _ IH|items item Hin _ IH]; [done|..]; intros Hs.
  - rewrite candidates_object. apply elem_of_app. right.
    apply list_elem_of_bind. exists (key, nested). auto.
  - rewrite candidates_array. apply list_elem_of_bind. exists item. auto.
Qed.

(** ** The deduplication *)

Lemma dedup_loop_keep_first (urls : list string) (seen : gset string)
    (deduped : list string) :
  dedup_loop urls seen deduped
  = deduped ++ filter (λ y, y ∉ seen) (keep_first urls).
Proof.
  revert seen deduped. induction urls as [|x urls IH]; intros seen deduped; simpl.
  - by rewrite app_nil_r.
  - case_decide as Hx; rewrite IH.
    + rewrite filter_cons_False by (intros ?; done).
      rewrite list_filter_filter_l; [done|]. intros y Hy ->. done.
    + rewrite filter_cons_True by done.
      rewrite <- (assoc_L (++)). simpl. do 2 f_equal.
      rewrite list_filter_filter. apply list_filter_iff. set_solver.
Qed.

Lemma extract_keep_first (v : json) :
  extract_image_urls v = keep_first (candidates v).
Proof.
  unfold extract_image_urls. cbv zeta.
  rewrite dedup_loop_keep_first, walk_candidates. simpl.
  induction (keep_first (candidates v)) as [|x l IH]; [done|].
  rewrite filter_cons_True by set_solver. by rewrite IH.
Qed.

Lemma elem_of_keep_first (l : list string) (x : string) :
  x ∈ keep_first l ↔ x ∈ l.
Proof.
  induction l as [|y l IH]; simpl; [done|].
  rewrite !elem_of_cons, list_elem_of_filter, IH.
  destruct (decide (x = y)); naive_solver.
Qed.

Lemma NoDup_keep_first (l : list string) : NoDup (keep_first l).
Proof.
  induction l as [|y l IH]; simpl; [constructor|].
  apply NoDup_cons. split; [|by apply NoDup_filter].
  rewrite list_elem_of_filter. naive_solver.
Qed.

Lemma filter_ne_absent (x : string) (l : list string) :
  x ∉ l → filter (λ y, y ≠ x) l = l.
Proof.
  induction l as [|y l IH]; [done|]. intros [Hxy Hx]%not_elem_of_cons.
  rewrite filter_cons_True by done. f_equal. auto.
Qed.

Lemma keep_first_NoDup (l : list string) : NoDup l → keep_first l = l.
Proof.
  induction 1 as [|x l Hx _ IH]; simpl; [done|].
  by rewrite IH, filter_ne_absent.
Qed.

Lemma keep_first_sublist (l : list string) : keep_first l `sublist_of` l.
Proof.
  induction l as [|x l IH]; simpl; [done|].
  constructor. etrans; [apply sublist_filter | done].
Qed.

Lemma first_index_cons_ne (x y : string) (l : list string) :
  y ≠ x → first_index x (y :: l) = S (first_index x l).
Proof. intros Hne. simpl. by rewrite decide_False. Qed.

Lemma StronglySorted_filter_fmap {A B} (R : B → B → Prop) (f : A → B)
    (P : A → Prop) `{!∀ x, Decision (P x)} (l : list A) :
  StronglySorted R (f <$> l) → StronglySorted R (f <$> filter P l).
Proof.
  induction l as [|x l IH]; [done|]. rewrite fmap_cons.
  intros [Hx Hl]%StronglySorted_cons. rewrite filter_cons.
  case_decide; [|by auto]. rewrite fmap_cons. apply StronglySorted_cons.
  split; [|by auto]. rewrite Forall_fmap in *. rewrite Forall_forall in *.
  intros y [_ Hy]%list_elem_of_filter. auto.
Qed.

(** The positions of the first occurrences in [l] grow strictly along
    [keep_first l]. *)
Lemma keep_first_order (l : list string) :
  StronglySorted lt ((λ x, first_index x l) <$> keep_first l).
Proof.
  induction l as [|y l IH]; [constructor|].
  change (keep_first (y :: l)) with (y :: filter (λ z, z ≠ y) (keep_first l)).
  rewrite fmap_cons. apply StronglySorted_cons. split.
  - rewrite Forall_fmap, Forall_forall. intros z [Hz _]%list_elem_of_filter.
    simpl. rewrite decide_True, decide_False by done. lia.
  - assert (Hext : (λ x, first_index x (y :: l)) <$> filter (λ z, z ≠ y) (keep_first l)
                   = S <$> ((λ x, first_index x l) <$> filter (λ z, z ≠ y) (keep_first l))).
    { rewrite <- list_fmap_compose. apply list_fmap_ext.
      intros i z [Hz _]%list_elem_of_lookup_2%list_elem_of_filter.
      simpl. by rewrite decide_False. }
    rewrite Hext. apply (StronglySorted_fmap S lt lt); [intros ???; lia|].
    apply (StronglySorted_filter_fmap lt (λ x, first_index x l)), IH.
Qed.

Lemma occurrences_NoDup (x : string) (l : list string) :
  NoDup l → x ∈ l → occurrences x l = 1%nat.
Proof.
  unfold occurrences. induction 1 as [|y l Hy _ IH]; [by intros ?%elem_of_nil|].
  intros [->|Hx]%elem_of_cons.
  - rewrite filter_cons_True by done. simpl. f_equal.
    assert (filter (λ z, z = y) l = []) as ->; [|done].
    apply elem_of_nil_inv. intros z [-> Hz]%list_elem_of_filter. done.
  - rewrite filter_cons_False by (intros ->; done). auto.
Qed.

Lemma dedup_loop_empty (l : list string) : dedup_loop l ∅ [] = keep_first l.
Proof.
  rewrite dedup_loop_keep_first. simpl.
  induction (keep_first l) as [|x k IH]; [done|].
  rewrite filter_cons_True by set_solver. by rewrite IH.
Qed.

(** ** extract_image_urls *)

(** C1: every string returned by [extract_image_urls] satisfies
    [looks_like_image] and is a string node of the input; an input without
    string nodes gives the empty list. *)
Theorem extract_sound (v : json) :
  (∀ s, s ∈ extract_image_urls v → looks_like_image s = true ∧ string_node s v) ∧
  ((∀ s, ¬ string_node s v) → extract_image_urls v = []).
Proof.
  assert (Hsound : ∀ s, s ∈ extract_image_urls v →
                        looks_like_image s = true ∧ string_node s v).
  { intros s. rewrite extract_keep_first, elem_of_keep_first. apply candidates_sound. }
  split; [done|]. intros Hnone. apply elem_of_nil_inv. intros s Hs.
  destruct (Hsound s Hs) as [_ Hnode]. by apply (Hnone s).
Qed.

(** C3: the result holds no string twice and is its own deduplication; it
    is the list of candidates of the depth-first walk with only the first
    occurrence of each kept, in the order of those first occurrences; the
    object with keys "a" and "b" gives its two URLs in key order. *)
Theorem extract_unique_in_first_occurrence_order :
  (∀ v : json,
     let raw := walk v [] in
     let result := extract_image_urls v in
     NoDup result ∧
     dedup_loop result ∅ [] = result ∧
     raw = candidates v ∧
     result = keep_first raw ∧
     (∀ x, x ∈ result ↔ x ∈ raw) ∧
     result `sublist_of` raw ∧
     StronglySorted lt ((λ x, first_index x raw) <$> result)) ∧
  extract_image_urls
    (JObject [("a", JString "http://x.com/1.png"); ("b", JString "http://x.com/2.png")])
  = ["http://x.com/1.png"; "http://x.com/2.png"].
Proof.
  split; [|by vm_compute]. intros v raw result.
  assert (raw = candidates v) as Hraw by apply (walk_candidates v []).
  assert (result = keep_first raw) as Hres.
  { unfold result. by rewrite extract_keep_first, Hraw. }
  rewrite Hres. split_and!.
  - apply NoDup_keep_first.
  - rewrite dedup_loop_empty. apply keep_first_NoDup, NoDup_keep_first.
  - done.
  - done.
  - intros x. apply elem_of_keep_first.
  - apply keep_first_sublist.
  - apply keep_first_order.
Qed.

(** C4: an object's matching "url" field is recorded before the descent
    into the object's values, the descent meets the same string again, and
    the result of [extract_image_urls] on the whole input holds it once. *)
Theorem url_field_recorded_once (v : json) (members : list (string * json))
    (u : string) :
  occurs_in (JObject members) v →
  dict_get "url" members = Some (JString u) →
  looks_like_image u = true →
  (∀ urls, walk (JObject members) urls
           = urls ++ u :: (members ≫= (λ kv, candidates kv.2))) ∧
  u ∈ (members ≫= (λ kv, candidates kv.2)) ∧
  occurrences u (extract_image_urls v) = 1%nat.
Proof.
  intros Hocc Hget Hu.
  assert (Hfield : url_field members = [u]) by (unfold url_field; by rewrite Hget, Hu).
  split_and!.
  - intros urls. by rewrite walk_candidates, candidates_object, Hfield.
  - apply list_elem_of_bind. exists ("url", JString u).
    split; [simpl; rewrite Hu; by left | by apply dict_get_elem_of].
  - rewrite extract_keep_first. apply occurrences_NoDup; [apply NoDup_keep_first|].
    apply elem_of_keep_first, (candidates_occurs_in (JObject members)); [done|].
    rewrite candidates_object, Hfield. by left.
Qed.

Lemma url_field_recorded_once_example :
  walk (JObject [("url", JString "http://x.com/a.png");
                 ("other", JString "http://x.com/a.png")]) []
  = ["http://x.com/a.png"; "http://x.com/a.png"; "http://x.com/a.png"] ∧
  occurrences "http://x.com/a.png"
    (extract_image_urls
       (JObject [("url", JString "http://x.com/a.png");
                 ("other", JString "http://x.com/a.png")])) = 1%nat ∧
  extract_image_urls
    (JObject [("url", JString "http://x.com/a.png");
              ("other", JString "http://x.com/a.png")])
  = ["http://x.com/a.png"].
Proof.
  split; [by vm_compute|]. split; [|by vm_compute].
  apply (url_field_recorded_once _
           [("url", JString "http://x.com/a.png");
            ("other", JString "http://x.com/a.png")]).
  - constructor.
  - reflexivity.
  - reflexivity.
Defined.

(** C9: a string that is only a key of some object in the input, and no
    string node of it, is not in the result, whatever the predicate says
    of it. *)
Theorem keys_are_not_extracted (v : json) (s : string) :
  key_in s v → ¬ string_node s v → s ∉ extract_image_urls v.
Proof.
  intros _ Hnode Hs. apply Hnode.
  rewrite extract_keep_first, elem_of_keep_first in Hs.
  by apply candidates_sound in Hs as [_ ?].
Qed.

Lemma keys_are_not_extracted_example :
  looks_like_image "http://x.com/a.png" = true ∧
  "http://x.com/a.png" ∉
    extract_image_urls (JObject [("http://x.com/a.png", JNumber (PyInt 1))]).
Proof.
  split; [reflexivity|].
  apply keys_are_not_extracted.
  - exists [("http://x.com/a.png", JNumber (PyInt 1))], (JNumber (PyInt 1)).
    split; [constructor | by left].
  - unfold string_node. intros Hocc.
    inversion Hocc as [|members key nested Hin Hnested|]; subst.
    apply list_elem_of_singleton in Hin. injection Hin as _ Hnum. subst nested.
    inversion Hnested.
Defined.

(** ** Examples of the extraction *)

Example extract_two_keys :
  extract_image_urls
    (JObject [("a", JString "http://x.com/1.png"); ("b", JString "http://x.com/2.png")])
  = ["http://x.com/1.png"; "http://x.com/2.png"].
Proof. vm_compute. reflexivity. Qed.

Example extract_url_field :
  extract_image_urls
    (JObject [("url", JString "http://x.com/a.png"); ("other", JString "http://x.com/a.png")])
  = ["http://x.com/a.png"].
Proof. vm_compute. reflexivity. Qed.

Example walk_url_field :
  walk
    (JObject [("url", JString "http://x.com/a.png"); ("other", JString "http://x.com/a.png")]) []
  = ["http://x.com/a.png"; "http://x.com/a.png"; "http://x.com/a.png"].
Proof. vm_compute. reflexivity. Qed.

Example extract_nested :
  extract_image_urls
    (JArray [JObject [("images", JArray [JObject [("url", JString "http://x.com/a.jpg")]])]])
  = ["http://x.com/a.jpg"].
Proof. vm_compute. reflexivity. Qed.

Example walk_frames_nested :
  walk_frames 4
    (JArray [JObject [("images", JArray [JObject [("url", JString "http://x.com/a.jpg")]])]]) []
  = None.
Proof. vm_compute. reflexivity. Qed.

Example extract_ignores_leaves :
  extract_image_urls
    (JArray [JNumber (PyInt 3); JBool true; JNull; JNumber (PyFloat 0);
             JString "see http://x.com/a.png"])
  = [].
Proof. vm_compute. reflexivity. Qed.

Example lower_upper_case : Str.lower "HTTPS://X.COM/A.PNG" = "https://x.com/a.png".
Proof. reflexivity. Qed.

Example split1_examples :
  Str.split1 "?" "a?b?c" = ["a"; "b?c"] ∧ Str.split1 "?" "abc" = ["abc"] ∧
  Str.split1 "?" "" = [""].
Proof. by repeat split. Qed.

(** ** Termination of the walk *)






(** ** Naming the output file *)

Section Naming.
Context `{Platform}.


Lemma build_output_path_eq (output_dir metadata_file : Path) (url : string)
    (index : Z) (st : state) (url_path : string) :
  urlsplit_path url = Ok url_path →
  let name :=
    if decide (path_name url_path = "")
    then path_stem metadata_file +:+ "_" +:+ pretty index +:+ ".png"
    else path_name url_path in
  build_output_path output_dir metadata_file url index st
  = (Ok (if path_exists (fs st) (joinpath output_dir name)
         then joinpath output_dir
                (path_stem metadata_file +:+ "_" +:+ pretty index +:+ "_" +:+ name)
         else joinpath output_dir name), st).
Proof.
  intros Hsplit name. unfold build_output_path, bind, lift, get_fs, ret.
  rewrite Hsplit. fold name. by destruct (path_exists _ _).
Qed.

Lemma build_output_path_raises (output_dir metadata_file : Path) (url : string)
    (index : Z) (st : state) (e : exn) :
  urlsplit_path url = Raise e →
  build_output_path output_dir metadata_file url index st = (Raise e, st).
Proof. intros Hsplit. unfold build_output_path, bind, lift. by rewrite Hsplit. Qed.





End Naming.


Example build_output_path_fallback :
  (@build_output_path Scenario.platform "out" "meta/run.json" "http://x.com/" 7
     Scenario.crowded_start).1
  = Ok ("out/run_7.png" : string).
Proof. reflexivity. Qed.


(** ** The batch loop *)

Section Batch.
Context `{Platform}.

Lemma quiet_ret {A} (a : A) : quiet (ret a).
Proof. intros st r st' [= _ <-]. done. Qed.

Lemma quiet_lift {A} (x : result A) : quiet (lift x).
Proof. intros st r st' [= _ <-]. done. Qed.

Lemma quiet_get_fs : quiet get_fs.
Proof. intros st r st' [= _ <-]. done. Qed.

Lemma quiet_put_fs (f : files) : quiet (put_fs f).
Proof. intros st r st' [= _ <-]. done. Qed.

Lemma quiet_bind {A B} (m : M A) (k : A → M B) :
  quiet m → (∀ a, quiet (k a)) → quiet (bind m k).
Proof.
  intros Hm Hk st r st'. unfold bind.
  destruct (m st) as [[a|e] st1] eqn:Hrun.
  - intros Hk'. rewrite (Hk a _ _ _ Hk'). eauto.
  - intros [= _ <-]. eauto.
Qed.

Lemma for_each_cons {A} (x : A) (xs : list A) (body : A → M unit) (st : state) :
  for_each (x :: xs) body st
  = match body x st with
    | (Ok _, st') => for_each xs body st'
    | (Raise e, st') => (Raise e, st')
    end.
Proof. reflexivity. Qed.

Lemma quiet_for_each {A} (xs : list A) (body : A → M unit) :
  (∀ x, quiet (body x)) → quiet (for_each xs body).
Proof.
  intros Hbody. induction xs as [|x xs IH]; simpl.
  - apply quiet_ret.
  - apply quiet_bind; [done|]. intros _. exact IH.
Qed.

Lemma quiet_download_image (url : string) (destination : Path)
    (headers : list (string * string)) (timeout : Z) :
  quiet (download_image url destination headers timeout).
Proof.
  unfold download_image.
  apply quiet_bind; [apply quiet_get_fs|]. intros f.
  apply quiet_bind; [apply quiet_lift|]. intros f'.
  apply quiet_bind; [apply quiet_put_fs|]. intros _.
  apply quiet_bind; [by intros st r st' [= _ <-]|]. intros response.
  apply quiet_bind; [apply quiet_lift|]. intros _.
  apply quiet_bind.
  { unfold open_wb. apply quiet_bind; [apply quiet_get_fs|]. intros g.
    destruct (g destination) as [[|?]|]; auto using quiet_lift, quiet_put_fs. }
  intros _. apply quiet_bind.
  { apply quiet_for_each. intros [|b chunk]; [apply quiet_ret|].
    unfold handle_write. apply quiet_bind; [apply quiet_get_fs|]. intros g.
    destruct (g destination) as [[|?]|]; apply quiet_put_fs. }
  intros _. destruct (stream_error _); auto using quiet_lift, quiet_ret.
Qed.

(** A URL whose path [urlsplit] returns is reported with one line, and
    the loop body returns, whether the download raised or not. *)
Lemma url_body_reports (args : arguments) (headers : list (string * string))
    (metadata_path : Path) (index : Z) (url url_path : string) (st : state) :
  urlsplit_path url = Ok url_path →
  ∃ destination st',
    build_output_path (output_dir args) metadata_path url index st
    = (Ok destination, st) ∧
    url_body args headers metadata_path (index, url) st = (Ok tt, st') ∧
    stdout st' = stdout st ++
      [match (download_image url destination headers (timeout args) st).1 with
       | Raise exc =>
           "Failed to download " +:+ url +:+ " from " +:+ path_str metadata_path
           +:+ ": " +:+ exn_text exc
       | Ok _ => "Saved " +:+ url +:+ " -> " +:+ path_str destination
       end].
Proof.
  intros Hsplit.
  assert (∃ destination,
            build_output_path (output_dir args) metadata_path url index st
            = (Ok destination, st)) as [destination Hpath].
  { eexists. by apply (build_output_path_eq _ _ _ _ _ url_path). }
  exists destination.
  unfold url_body, bind at 1. rewrite Hpath.
  unfold bind, attempt, print.
  destruct (download_image _ _ _ _ st) as [[[]|exc] st1] eqn:Hrun;
    (eexists; split_and!; [done..|]); simpl;
    by rewrite (quiet_download_image _ _ _ _ _ _ _ Hrun).
Qed.

(** A URL that [urlsplit] rejects leaves the loop body by the exception,
    with nothing printed. *)
Lemma url_body_raises (args : arguments) (headers : list (string * string))
    (metadata_path : Path) (index : Z) (url : string) (e : exn) (st : state) :
  urlsplit_path url = Raise e →
  url_body args headers metadata_path (index, url) st = (Raise e, st).
Proof.
  intros Hsplit. unfold url_body, bind.
  by rewrite (build_output_path_raises _ _ _ _ _ _ Hsplit).
Qed.

Lemma read_metadata_state (metadata_path : Path) (st : state) :
  (read_metadata metadata_path st).2 = st.
Proof.
  unfold read_metadata, bind, get_fs, lift.
  by destruct (fs st metadata_path) as [[|data]|].
Qed.


Lemma url_loop_returns (args : arguments) (headers : list (string * string))
    (metadata_path : Path) (items : list (Z * string)) (st : state) :
  (∀ url, ∃ url_path, urlsplit_path url = Ok url_path) →
  ∃ st', for_each items (url_body args headers metadata_path) st = (Ok tt, st').
Proof.
  intros Hsplit. revert st. induction items as [|[index url] items IH]; intros st.
  - by exists st.
  - destruct (Hsplit url) as [url_path Hurl].
    destruct (url_body_reports args headers metadata_path index url url_path st Hurl)
      as (destination & st1 & _ & Hbody & _).
    destruct (IH st1) as [st' Hrest]. exists st'.
    by rewrite for_each_cons, Hbody.
Qed.

(** When [urlsplit] returns on every URL, the loop over the metadata
    files returns whatever reading, parsing and downloading do. *)
Lemma main_loop_returns (args : arguments) (headers : list (string * string))
    (metadata_files : list Path) (st : state) :
  (∀ url, ∃ url_path, urlsplit_path url = Ok url_path) →
  ∃ st', main_loop args headers metadata_files st = (Ok tt, st').
Proof.
  intros Hsplit. unfold main_loop. revert st.
  induction metadata_files as [|metadata_path rest IH]; intros st.
  - by exists st.
  - assert (∃ st1, file_body args headers metadata_path st = (Ok tt, st1))
      as [st1 Hbody].
    { unfold file_body, bind at 1, attempt.
      destruct (read_metadata metadata_path st) as [[payload|exc] st1]; [|by eexists].
      destruct (extract_image_urls payload) as [|u urls]; [by eexists|].
      apply url_loop_returns, Hsplit. }
    destruct (IH st1) as [st' Hrest]. exists st'.
    by rewrite for_each_cons, Hbody.
Qed.

(** An exception that leaves the body for one metadata file leaves the
    whole loop: the files after it are not visited. *)
Lemma main_loop_raises (args : arguments) (headers : list (string * string))
    (metadata_path : Path) (rest : list Path) (st st' : state) (e : exn) :
  file_body args headers metadata_path st = (Raise e, st') →
  main_loop args headers (metadata_path :: rest) st = (Raise e, st').
Proof. intros Hbody. unfold main_loop. by rewrite for_each_cons, Hbody. Qed.

(** The first URL of a metadata file is one that [urlsplit] rejects. *)
Lemma file_body_raises (args : arguments) (headers : list (string * string))
    (metadata_path : Path) (st : state) (payload : json) (url : string)
    (urls : list string) (e : exn) :
  read_metadata metadata_path st = (Ok payload, st) →
  extract_image_urls payload = url :: urls →
  max_per_file args = None →
  urlsplit_path url = Raise e →
  file_body args headers metadata_path st = (Raise e, st).
Proof.
  intros Hread Hurls Hmax Hsplit. unfold file_body, bind at 1, attempt.
  rewrite Hread, Hurls, Hmax. cbn [enumerate].
  by rewrite for_each_cons, (url_body_raises _ _ _ _ _ _ _ Hsplit).
Qed.

End Batch.

(** C8 at a batch of two metadata files, the first holding the string
    "http://[x/a.png": it passes [looks_like_image], [urlsplit] raises
    [ValueError] on it, and [build_output_path] is called outside the
    [try]; the exception leaves the loop, nothing is printed and the second
    file, which alone is processed to the end, is never read. *)
Theorem main_loop_aborts_on_rejected_url :
  looks_like_image Scenario.bad_url = true ∧
  @urlsplit_path Scenario.platform Scenario.bad_url
  = Raise (Exception "Invalid IPv6 URL") ∧
  (let '(r, st) := @main_loop Scenario.platform Scenario.args []
                     ["meta/a.json" : string; "meta/b.json" : string] Scenario.start in
   (r, stdout st, sent st))
  = (Raise (Exception "Invalid IPv6 URL"), [], 0%nat) ∧
  (let '(r, st) := @main_loop Scenario.platform Scenario.args []
                     ["meta/b.json" : string] Scenario.start in
   (r, stdout st, sent st))
  = (Ok tt, ["Saved http://x.com/b.png -> out/b.png"], 1%nat) ∧
  (let '(r, st) := @main_loop Scenario.platform Scenario.args []
                     ["meta/missing.json" : string; "meta/b.json" : string]
                     Scenario.start in
   (r, stdout st, sent st))
  = (Ok tt, ["Failed to read metadata meta/missing.json: FileNotFoundError";
             "Saved http://x.com/b.png -> out/b.png"], 1%nat).
Proof. split_and!; by vm_compute. Qed.

(** * Further properties *)

(** ** The predicate and the query string *)

Lemma lower_app (s t : string) : Str.lower (s +:+ t) = Str.lower s +:+ Str.lower t.
Proof. induction s as [|c s IH]; [done|]. rewrite str_app_cons. simpl. by rewrite IH. Qed.

Lemma startswith_app_absent (p s q : string) (c : ascii) :
  Str.contains_char c p = false →
  Str.startswith (s +:+ String c q) p = Str.startswith s p.
Proof.
  revert s. induction p as [|a p IH]; intros s Hc; [done|].
  simpl in Hc. apply orb_false_iff in Hc as [Hac Hc].
  destruct s as [|d s]; simpl.
  - rewrite Ascii.eqb_sym, Hac. done.
  - destruct (Ascii.eqb d a); [by apply IH | done].
Qed.

Lemma item0_split1_app (sep : ascii) (s q : string) :
  item0 (Str.split1 sep (s +:+ String sep q)) = item0 (Str.split1 sep s).
Proof.
  apply (before_first_unique sep (s +:+ String sep q)); [apply split1_before_first|].
  destruct (split1_before_first sep s) as [Hno [Hall|[rest Hrest]]]; split; try done.
  - right. exists q. by rewrite Hall.
  - right. exists (rest +:+ String sep q).
    rewrite Hrest at 1. by rewrite str_app_assoc.
Qed.

(** X1: whatever follows a "?" added to a string is ignored: the string
    qualifies with the query exactly when it qualifies without it. *)
Theorem looks_like_image_ignores_query (s q : string) :
  looks_like_image (s +:+ String "?" q) = looks_like_image s.
Proof.
  unfold looks_like_image. cbv zeta.
  rewrite lower_app. change (Str.lower (String "?" q)) with (String "?"%char (Str.lower q)).
  rewrite startswith_app_absent by done. by rewrite item0_split1_app.
Qed.

(** ** Completeness and composition of the extraction *)

(** X2: a string is returned exactly when it is a string value of the input
    that satisfies the predicate. *)
Theorem extract_complete (v : json) (s : string) :
  s ∈ extract_image_urls v ↔ looks_like_image s = true ∧ string_node s v.
Proof.
  rewrite extract_keep_first, elem_of_keep_first. split; [apply candidates_sound|].
  intros [Hs Hnode]. apply (candidates_occurs_in (JString s)); [done|].
  simpl. rewrite Hs. by left.
Qed.

Lemma candidates_values (members : list (string * json)) :
  candidates (JArray members.*2) = members ≫= (λ kv, candidates kv.2).
Proof.
  rewrite candidates_array. induction members as [|[k nested] ms IH]; [done|].
  rewrite fmap_cons, !bind_cons. by rewrite IH.
Qed.

(** X3: for an object, the check on the "url" field changes the order of
    the result and nothing else: a matching "url" value comes first,
    wherever the key stands, followed by what the walk of the values gives;
    without a matching "url" value the result is that of the values. *)
Theorem url_field_comes_first (members : list (string * json)) :
  extract_image_urls (JObject members)
  = match url_field members with
    | u :: _ => u :: filter (λ x, x ≠ u) (extract_image_urls (JArray members.*2))
    | [] => extract_image_urls (JArray members.*2)
    end.
Proof.
  rewrite !extract_keep_first, candidates_object, candidates_values.
  unfold url_field. destruct (dict_get "url" members) as [[u| | | | |]|]; try done.
  by destruct (looks_like_image u).
Qed.

Example url_field_comes_first_example :
  extract_image_urls
    (JObject [("a", JString "http://x.com/1.png"); ("url", JString "http://x.com/2.png")])
  = ["http://x.com/2.png"; "http://x.com/1.png"].
Proof. by vm_compute. Qed.

Lemma candidates_strings (l : list string) :
  candidates (JArray (JString <$> l)) = filter (λ s, looks_like_image s = true) l.
Proof.
  rewrite candidates_array. induction l as [|s l IH]; [done|].
  rewrite fmap_cons, bind_cons, IH, filter_cons. simpl.
  destruct (looks_like_image s); by case_decide.
Qed.

(** X4: the result, read back as a JSON array of strings, is extracted
    unchanged. *)
Theorem extract_of_result (v : json) :
  extract_image_urls (JArray (JString <$> extract_image_urls v))
  = extract_image_urls v.
Proof.
  rewrite (extract_keep_first (JArray _)), candidates_strings.
  assert (Hall : ∀ s, s ∈ extract_image_urls v → looks_like_image s = true).
  { intros s Hs. rewrite extract_keep_first, elem_of_keep_first in Hs.
    by apply candidates_sound in Hs as [? _]. }
  assert (Hnodup : NoDup (extract_image_urls v)).
  { rewrite extract_keep_first. apply NoDup_keep_first. }
  rewrite keep_first_NoDup by by apply NoDup_filter.
  induction (extract_image_urls v) as [|s l IH]; [done|].
  rewrite filter_cons_True by (apply Hall; by left).
  f_equal. apply IH.
  - intros t Ht. apply Hall. by right.
  - by apply NoDup_cons in Hnodup as [_ ?].
Qed.

Lemma keep_first_app (a b : list string) :
  keep_first (a ++ b) = keep_first a ++ filter (λ x, x ∉ a) (keep_first b).
Proof.
  induction a as [|x a IH]; simpl.
  - symmetry. induction (keep_first b) as [|y l IHl]; [done|].
    rewrite filter_cons_True by set_solver. by rewrite IHl.
  - f_equal. rewrite IH, filter_app, list_filter_filter. f_equal.
    apply list_filter_iff. set_solver.
Qed.

(** X5: items added at the end of an array leave the results of the
    earlier items in place: the new list is the old one followed by the
    results of the added items that were not already there. *)
Theorem extract_array_app (xs ys : list json) :
  extract_image_urls (JArray (xs ++ ys))
  = extract_image_urls (JArray xs)
    ++ filter (λ u, u ∉ extract_image_urls (JArray xs))
         (extract_image_urls (JArray ys)).
Proof.
  rewrite !extract_keep_first, !candidates_array, bind_app, keep_first_app.
  f_equal. apply list_filter_iff. intros u. by rewrite elem_of_keep_first.
Qed.

(** ** Names of output files *)




Section NamingMore.
Context `{Platform}.





End NamingMore.

(** ** Downloads *)

Section DownloadMore.
Context `{Platform}.

Lemma write_chunks_frame (destination : Path) (chunks : list (list Byte.byte))
    (st : state) (data : list Byte.byte) :
  fs st destination = Some (File data) →
  ∃ st',
    for_each chunks
      (λ chunk, match chunk with
                | [] => ret tt
                | _ => handle_write destination chunk
                end) st = (Ok tt, st') ∧
    fs st' destination = Some (File (data ++ concat chunks)) ∧
    (∀ q, q ≠ destination → fs st' q = fs st q) ∧
    sent st' = sent st ∧ stdout st' = stdout st.
Proof.
  revert st data. induction chunks as [|chunk chunks IH]; intros st data Hdata.
  - exists st. simpl. by rewrite app_nil_r.
  - destruct chunk as [|b chunk].
    + destruct (IH st data Hdata) as (st' & Hrun & ?). exists st'.
      split; [|done]. by rewrite for_each_cons.
    + set (st1 := {| fs := write_entry (fs st) destination (File (data ++ b :: chunk));
                     sent := sent st; stdout := stdout st |}).
      destruct (IH st1 (data ++ b :: chunk)) as (st' & Hrun & Hfs & Hframe & Hsent & Hout).
      { simpl. unfold write_entry. by rewrite decide_True. }
      exists st'. split_and!; [|by rewrite Hfs, <- (assoc_L (++))| |done|done].
      * rewrite for_each_cons. unfold handle_write, bind, get_fs, put_fs.
        rewrite Hdata. exact Hrun.
      * intros q Hq. rewrite (Hframe q Hq). simpl. unfold write_entry.
        by rewrite decide_False.
Qed.

(** X8: when the request raises or [raise_for_status] raises, the
    destination is never opened: the disk is as [mkdir] left it, the
    exception is passed on, and one request has been sent. *)
Theorem download_image_fails_before_open (url : string) (destination : Path)
    (headers : list (string * string)) (timeout : Z) (st : state)
    (f' : files) (e : exn) :
  mkdir_parents (fs st) (path_parent destination) = Ok f' →
  requests_get (sent st) url headers timeout = Raise e
  ∨ (∃ response, requests_get (sent st) url headers timeout = Ok response ∧
                 raise_for_status response = Raise e) →
  download_image url destination headers timeout st
  = (Raise e, {| fs := f'; sent := S (sent st); stdout := stdout st |}).
Proof.
  intros Hmkdir Hfail. unfold download_image, bind at 1 2 3 4 5, get_fs, lift, put_fs.
  rewrite Hmkdir. simpl. destruct Hfail as [->|(response & -> & ->)]; done.
Qed.



Lemma download_image_sent (url : string) (destination : Path)
    (headers : list (string * string)) (timeout : Z) (st st' : state)
    (r : result unit) :
  download_image url destination headers timeout st = (r, st') →
  (sent st ≤ sent st' ≤ S (sent st))%nat.
Proof.
  unfold download_image, bind at 1 2 3 4 5, get_fs, lift, put_fs.
  destruct (mkdir_parents _ _) as [f'|e]; [|intros [= _ <-]; lia]. simpl.
  destruct (requests_get _ _ _ _) as [response|e]; [|intros [= _ <-]; simpl; lia].
  destruct (raise_for_status response) as [[]|e]; [|intros [= _ <-]; simpl; lia].
  set (st1 := {| fs := f'; sent := S (sent st); stdout := stdout st |}).
  unfold bind at 1, open_wb, bind at 1, get_fs. simpl.
  destruct (f' destination) as [[|old]|] eqn:Hold;
    [unfold lift; intros [= _ <-]; simpl; lia| |];
    unfold put_fs;
    match goal with
    | |- bind _ _ ?s = _ → _ =>
        destruct (write_chunks_frame destination (iter_content response) s [])
          as (st3 & Hwrite & _ & _ & Hsent & _);
          [simpl; unfold write_entry; by rewrite decide_True|]
    end;
    unfold bind; rewrite Hwrite;
    destruct (stream_error response); unfold lift, ret; intros [= _ <-];
    rewrite Hsent; simpl; lia.
Qed.

End DownloadMore.

(** ** One metadata file *)

Section BatchMore.
Context `{Platform}.


Lemma url_body_sent (args : arguments) (headers : list (string * string))
    (metadata_path : Path) (item : Z * string) (st : state) :
  (sent st ≤ sent (url_body args headers metadata_path item st).2 ≤ S (sent st))%nat.
Proof.
  destruct item as [index url].
  remember (url_body args headers metadata_path (index, url) st) as out eqn:Hout.
  unfold url_body, bind at 1 in Hout.
  destruct (urlsplit_path url) as [url_path|e] eqn:Hsplit.
  - rewrite (build_output_path_eq _ _ _ _ _ url_path Hsplit) in Hout. cbv zeta in Hout.
    unfold bind, attempt, print in Hout.
    destruct (download_image _ _ _ _ st) as [r st1] eqn:Hrun.
    apply download_image_sent in Hrun. subst out. destruct r as [[]|exc]; simpl; lia.
  - rewrite (build_output_path_raises _ _ _ _ _ _ Hsplit) in Hout. subst out.
    simpl. lia.
Qed.

Lemma for_each_sent {A} (body : A → M unit) (xs : list A) (st : state) :
  (∀ x s, (sent s ≤ sent (body x s).2 ≤ S (sent s))%nat) →
  (sent st ≤ sent (for_each xs body st).2 ≤ sent st + length xs)%nat.
Proof.
  intros Hbody. revert st. induction xs as [|x xs IH]; intros st; [simpl; lia|].
  rewrite for_each_cons. specialize (Hbody x st).
  destruct (body x st) as [[[]|e] st1]; simpl in *; [|lia].
  specialize (IH st1). lia.
Qed.

Lemma length_enumerate {A} (start : Z) (xs : list A) :
  length (enumerate start xs) = length xs.
Proof. revert start. induction xs as [|x xs IH]; intros start; simpl; auto. Qed.

Lemma length_slice_to {A} (n : Z) (xs : list A) :
  length (slice_to n xs)
  = if (0 <=? n)%Z then Nat.min (Z.to_nat n) (length xs)
    else (length xs - Z.to_nat (- n))%nat.
Proof. unfold slice_to. destruct (0 <=? n)%Z; rewrite length_take; lia. Qed.

(** X12: the body for one metadata file sends at most one request per URL
    it processes: none when the file cannot be read, at most [n] under
    [--max-per-file n] with [0 <= n], and all but the last [k] URLs' worth
    under [--max-per-file -k]. *)
Theorem file_body_request_bound (args : arguments) (headers : list (string * string))
    (metadata_path : Path) (st : state) :
  let found :=
    match (read_metadata metadata_path st).1 with
    | Ok payload => length (extract_image_urls payload)
    | Raise _ => O
    end in
  let limit :=
    match max_per_file args with
    | None => found
    | Some n =>
        if (0 <=? n)%Z then Nat.min (Z.to_nat n) found
        else (found - Z.to_nat (- n))%nat
    end in
  (sent st ≤ sent (file_body args headers metadata_path st).2 ≤ sent st + limit)%nat.
Proof.
  intros found limit. subst found limit.
  pose proof (read_metadata_state metadata_path st) as Hst.
  remember (file_body args headers metadata_path st) as out eqn:Hout.
  unfold file_body, bind at 1, attempt in Hout.
  destruct (read_metadata metadata_path st) as [[payload|exc] st1];
    simpl in Hst; subst st1; cbn [fst]; [|subst out; simpl; lia].
  pose proof (λ l, for_each_sent (url_body args headers metadata_path)
                     (enumerate 1 l) st (url_body_sent args headers metadata_path))
    as Hloop.
  destruct (extract_image_urls payload) as [|u urls].
  { subst out. simpl.
    destruct (max_per_file args) as [n|]; [destruct (0 <=? n)%Z|]; lia. }
  cbn beta iota in Hout. subst out.
  destruct (max_per_file args) as [n|].
  - specialize (Hloop (slice_to n (u :: urls))).
    rewrite length_enumerate, length_slice_to in Hloop. exact Hloop.
  - specialize (Hloop (u :: urls)).
    by rewrite length_enumerate in Hloop.
Qed.

(** X13: under [--max-per-file 0], or [--max-per-file -k] with [k] at least
    the number of URLs, a file that holds image URLs is passed over in
    silence: nothing is printed, nothing is sent, the disk is unchanged. *)
Theorem file_body_silent (args : arguments) (headers : list (string * string))
    (metadata_path : Path) (st : state) (payload : json) (n : Z) :
  read_metadata metadata_path st = (Ok payload, st) →
  extract_image_urls payload ≠ [] →
  max_per_file args = Some n →
  n = 0 ∨ n ≤ - Z.of_nat (length (extract_image_urls payload)) →
  file_body args headers metadata_path st = (Ok tt, st).
Proof.
  intros Hread Hurls Hmax Hn. unfold file_body, bind at 1, attempt.
  rewrite Hread, Hmax.
  destruct (extract_image_urls payload) as [|u urls] eqn:Hextract; [done|].
  assert (slice_to n (u :: urls) = []) as ->; [|done].
  apply length_zero_iff_nil. rewrite length_slice_to.
  destruct (Z.leb_spec 0 n); simpl in *; lia.
Qed.


End BatchMore.

(** ** The metadata files and the whole run *)

Section MainMore.
Context `{Platform}.
Variable path_of : string → Path.
Variable glob : files → string → result (list Path).

Lemma collect_files_app (f : files) (patterns : list string)
    (per_pattern : list (list Path)) (found : list Path) :
  Forall2 (λ pattern matched, pattern_files path_of glob f pattern = Ok matched)
          patterns per_pattern →
  collect_files path_of glob f patterns found = Ok (found ++ concat per_pattern).
Proof.
  intros Hall. revert found.
  induction Hall as [|pattern matched patterns per_pattern Hp _ IH]; intros found.
  - simpl. by rewrite app_nil_r.
  - cbn [collect_files concat]. unfold pattern_files in Hp.
    destruct (has_wildcard pattern).
    + by rewrite Hp, IH, <- (assoc_L (++)).
    + injection Hp as <-. by rewrite IH, <- (assoc_L (++)).
Qed.

Lemma collect_files_raises (f : files) (before : list string)
    (per_pattern : list (list Path)) (pattern : string) (after : list string)
    (found : list Path) (e : exn) :
  Forall2 (λ pattern matched, pattern_files path_of glob f pattern = Ok matched)
          before per_pattern →
  pattern_files path_of glob f pattern = Raise e →
  collect_files path_of glob f (before ++ pattern :: after) found = Raise e.
Proof.
  intros Hall Hraise. revert found.
  induction Hall as [|p matched ps per Hp _ IH]; intros found.
  - cbn [app collect_files]. unfold pattern_files in Hraise.
    destruct (has_wildcard pattern); [by rewrite Hraise | done].
  - cbn [app collect_files]. unfold pattern_files in Hp.
    destruct (has_wildcard p); [rewrite Hp|]; apply IH.
Qed.

(** X14: when every pattern is accepted, [resolve_files] returns, in the
    order of the patterns, the matches of each pattern with a wildcard
    character and the path of every other pattern, which is not looked up
    on the disk; it raises [FileNotFoundError] exactly when that list is
    empty, that is when every pattern has a wildcard character and matches
    nothing; it changes nothing. *)
Theorem resolve_files_spec (patterns : list string)
    (per_pattern : list (list Path)) (st : state) :
  Forall2 (λ pattern matched, pattern_files path_of glob (fs st) pattern = Ok matched)
          patterns per_pattern →
  resolve_files path_of glob patterns st
  = (if decide (concat per_pattern = [])
     then Raise (Exception "No metadata files matched the provided patterns.")
     else Ok (concat per_pattern), st) ∧
  (concat per_pattern = [] ↔
   Forall (λ pattern, has_wildcard pattern = true ∧ glob (fs st) pattern = Ok [])
          patterns).
Proof.
  intros Hall. split.
  - unfold resolve_files, bind, get_fs, lift. simpl.
    rewrite (collect_files_app _ _ per_pattern) by done. simpl.
    destruct (concat per_pattern); by case_decide.
  - induction Hall as [|pattern matched patterns per_pattern Hp _ IH].
    + split; [constructor | done].
    + cbn [concat]. rewrite Forall_cons, <- IH. unfold pattern_files in Hp. split.
      * intros [-> Htail]%app_eq_nil.
        destruct (has_wildcard pattern); [done | discriminate].
      * intros [[Hw Hg] ->]. rewrite Hw, Hg in Hp. by injection Hp as <-.
Qed.

(** X17: a pattern that [glob] does not accept ends [resolve_files] with
    the exception of [glob], whatever the patterns after it are, and
    [main] with it: nothing is read, sent or printed. *)
Theorem rejected_pattern_ends_main (cl : command_line) (api_key : option string)
    (headers : list (string * string)) (before after : list string)
    (per_pattern : list (list Path)) (pattern : string) (e : exn) (st : state) :
  request_headers (use_api_key cl) api_key = inr headers →
  metadata cl = before ++ pattern :: after →
  Forall2 (λ pattern matched, pattern_files path_of glob (fs st) pattern = Ok matched)
          before per_pattern →
  pattern_files path_of glob (fs st) pattern = Raise e →
  resolve_files path_of glob (metadata cl) st = (Raise e, st) ∧
  main path_of glob cl api_key st = (Uncaught e, st).
Proof.
  intros Hheaders Hcl Hbefore Hraise.
  assert (Hresolve : resolve_files path_of glob (metadata cl) st = (Raise e, st)).
  { unfold resolve_files, bind, get_fs, lift. simpl.
    by rewrite Hcl, (collect_files_raises _ _ per_pattern _ _ _ e). }
  split; [done|]. unfold main. rewrite Hheaders. unfold bind. by rewrite Hresolve.
Qed.




End MainMore.

(** ** The further properties on the example files *)



Lemma download_image_fails_before_open_example :
  (@download_image Cases.platform "http://x.com/gone.png" "out/a.png" [] 60
     Cases.crowded_start).1
  = Raise (Exception "404 Client Error") ∧
  fs (@download_image Cases.platform "http://x.com/gone.png" "out/a.png" [] 60
        Cases.crowded_start).2 ("out/a.png" : string)
  = Some (File [Byte.x01]).
Proof.
  rewrite (@download_image_fails_before_open Cases.platform "http://x.com/gone.png"
             "out/a.png" [] 60 Cases.crowded_start
             (λ q : string, if decide (q = "out") then Some Dir else Scenario.crowded q)
             (Exception "404 Client Error")).
  - split; reflexivity.
  - reflexivity.
  - right. exists Cases.refused. split; reflexivity.
Defined.




Lemma file_body_silent_example :
  @file_body Scenario.platform Cases.limited [] "meta/b.json" Scenario.start
  = (Ok tt, Scenario.start).
Proof.
  apply (@file_body_silent Scenario.platform Cases.limited [] "meta/b.json"
           Scenario.start (JArray [JString Scenario.good_url]) 0).
  - vm_compute. reflexivity.
  - vm_compute. discriminate.
  - reflexivity.
  - left. reflexivity.
Defined.


Lemma resolve_files_spec_example :
  (@resolve_files Scenario.platform Cases.path_of Cases.glob
     ["meta/*.json"; "meta/x.json"] Scenario.start).1
  = Ok ["meta/a.json" : string; "meta/b.json" : string; "meta/x.json" : string] ∧
  (@resolve_files Scenario.platform Cases.path_of Cases.glob ["none/*.json"]
     Scenario.start).1
  = Raise (Exception "No metadata files matched the provided patterns.").
Proof.
  split.
  - rewrite (proj1 (@resolve_files_spec Scenario.platform Cases.path_of Cases.glob
                      ["meta/*.json"; "meta/x.json"]
                      [["meta/a.json" : string; "meta/b.json" : string];
                       ["meta/x.json" : string]]
                      Scenario.start ltac:(repeat constructor))).
    reflexivity.
  - rewrite (proj1 (@resolve_files_spec Scenario.platform Cases.path_of Cases.glob
                      ["none/*.json"] [[]] Scenario.start ltac:(repeat constructor))).
    reflexivity.
Defined.

Lemma rejected_pattern_ends_main_example :
  (@main Scenario.platform Cases.path_of Cases.glob Cases.absolute_pattern None
     Scenario.start)
  = (Uncaught (Exception "Non-relative patterns are unsupported"), Scenario.start).
Proof.
  apply (@rejected_pattern_ends_main Scenario.platform Cases.path_of Cases.glob
           Cases.absolute_pattern None [] ["meta/b.json"] ["meta/a.json"]
           [["meta/b.json" : string]] "/srv/*.json"
           (Exception "Non-relative patterns are unsupported") Scenario.start).
  - reflexivity.
  - reflexivity.
  - repeat constructor.
  - reflexivity.
Defined.
